(** * Customer Success Platform: the customer store and its HTTP handlers

    A shallow embedding of [src/models/Customer.ts] (the [Customer] record and
    the module-level [customers] array) and of [src/routes/customerRoutes.ts]
    (the three handlers mounted at [/api/customers] by [server.ts]), with the
    properties the specification states about them.

    The two sources of nondeterminism of the create handler, [uuidv4()] and
    [Math.random()], are oracles indexed by the number of calls made so far;
    the handlers run in a small state-and-exception monad over the store and
    the two call counters. *)

From Stdlib Require Import ZArith Lia Bool.
From Stdlib Require SpecFloat.
From stdpp Require Import base option list strings pretty.

Local Open Scope Z_scope.

(** ** IEEE-754 binary64, the only number type of JavaScript *)

Module Float64.

(** A finite double is the dyadic rational [mant * 2^expo]. *)
Record t := mk { mant : Z; expo : Z }.

Definition prec : Z := 53.
Definition emin : Z := -1074.

(** The doubles: at most [prec] significant bits, exponent not below the
    subnormal one.  (Overflow to [Infinity] is outside this model: the
    largest product formed by the handlers stays below 100.) *)
Definition wf (x : t) : Prop :=
  Z.abs (mant x) < 2 ^ prec ∧ emin <= expo x.

Definition of_Z (n : Z) : t := mk n 0.

(** Exact comparison of two dyadic rationals, after aligning exponents. *)
Definition align (x y : t) : Z * Z :=
  let e := Z.min (expo x) (expo y) in
  (mant x * 2 ^ (expo x - e), mant y * 2 ^ (expo y - e)).

Definition ltb (x y : t) : bool := (align x y).1 <? (align x y).2.
Definition leb (x y : t) : bool := (align x y).1 <=? (align x y).2.
Definition eqb (x y : t) : bool := (align x y).1 =? (align x y).2.

(** Rounding of the exact value [m * 2^e] to the nearest double, ties to
    the even significand: [k] low bits are dropped so that [prec] bits
    remain and the exponent does not fall below [emin]. *)
Definition round (m e : Z) : t :=
  let a := Z.abs m in
  let k := Z.max (Z.log2 a + 1 - prec) (emin - e) in
  if k <=? 0 then mk m e
  else
    let q := Z.shiftr a k in
    let r := a mod 2 ^ k in
    let half := 2 ^ (k - 1) in
    let q' := if (half <? r) || ((r =? half) && Z.odd q) then q + 1 else q in
    mk (Z.sgn m * q') (e + k).

(** [x * y] of JavaScript: the exact product, rounded once. *)
Definition mul (x y : t) : t :=
  round (mant x * mant y) (expo x + expo y).

(** The same product by the Standard Library's specification of IEEE-754
    arithmetic, at the binary64 parameters; [None] when it is not finite. *)
Definition to_spec (x : t) : SpecFloat.spec_float :=
  match mant x with
  | Z0 => SpecFloat.S754_zero false
  | Zpos m => SpecFloat.S754_finite false m (expo x)
  | Zneg m => SpecFloat.S754_finite true m (expo x)
  end.

Definition of_spec (f : SpecFloat.spec_float) : option t :=
  match f with
  | SpecFloat.S754_zero _ => Some (mk 0 0)
  | SpecFloat.S754_finite s m e => Some (mk (if s then Zneg m else Zpos m) e)
  | _ => None
  end.

Definition spec_mul (x y : t) : option t :=
  of_spec (SpecFloat.SFmul prec 1024 (to_spec x) (to_spec y)).

Definition agrees_with_spec (xy : t * t) : bool :=
  match spec_mul xy.1 xy.2 with
  | Some z => eqb z (mul xy.1 xy.2)
  | None => false
  end.

End Float64.

(** [Math.random()] returns a double in [0, 1). *)
Definition unit_interval (x : Float64.t) : Prop :=
  Float64.wf x ∧
  Float64.leb (Float64.of_Z 0) x = true ∧ Float64.ltb x (Float64.of_Z 1) = true.

(** The range [0, 100) of a health score. *)
Definition percent_range (y : Float64.t) : Prop :=
  Float64.leb (Float64.of_Z 0) y = true ∧ Float64.ltb y (Float64.of_Z 100) = true.

Local Close Scope Z_scope.

(** ** JavaScript values, as [express.json()] hands them to a handler *)

Local Set Warnings "-register-all".

(** An object is the list of its own properties, in insertion order, with
    distinct keys. *)
Inductive value :=
  | VUndefined
  | VNull
  | VBool (b : bool)
  | VNum (x : Float64.t)
  | VStr (s : string)
  | VArr (items : list value)
  | VObj (props : list (string * value)).

Fixpoint assoc (key : string) (props : list (string * value)) : option value :=
  match props with
  | [] => None
  | (k, v) :: rest => if String.eqb k key then Some v else assoc key rest
  end.

(** [v.key] for the keys the handlers read ([name] and [email], which no
    built-in prototype defines): the own property of an object, and
    [undefined] on arrays and on boxed primitives. *)
Definition get_property (v : value) (key : string) : value :=
  match v with
  | VObj props => default VUndefined (assoc key props)
  | _ => VUndefined
  end.

(** Destructuring and property access throw on [undefined] and [null]. *)
Definition object_coercible (v : value) : bool :=
  match v with
  | VUndefined | VNull => false
  | _ => true
  end.

(** What [express.json()] delivers in its default strict mode. *)
Definition strict_json (v : value) : bool :=
  match v with
  | VArr _ | VObj _ => true
  | _ => false
  end.

(** ** [src/models/Customer.ts] *)

(** The interface declares [name] and [email] as strings; at run time they
    hold whatever the request body held, so they are [value]s here. *)
Record Customer := mkCustomer {
  id : string;
  name : value;
  email : value;
  healthScore : Float64.t
}.

Definition Customer_value (c : Customer) : value :=
  VObj [("id", VStr (id c)); ("name", name c); ("email", email c);
        ("healthScore", VNum (healthScore c))]%string.

(** ** Responses *)

(** [Json v] is the value handed to [res.json], [Text s] the string handed
    to [res.send]. *)
Inductive payload :=
  | NoBody
  | Json (v : value)
  | Text (s : string).

Record response := mkResponse { status : Z; body : payload }.

(** The [res] object a handler starts from: status 200, nothing sent. *)
Definition res : response := mkResponse 200 NoBody.
Definition res_status (code : Z) (r : response) : response :=
  mkResponse code (body r).
Definition res_json (v : value) (r : response) : response :=
  mkResponse (status r) (Json v).
Definition res_send (s : string) (r : response) : response :=
  mkResponse (status r) (Text s).

(** ** The process state and the handler monad *)

Record world := mkWorld {
  customers : list Customer;   (* export const customers: Customer[] = [] *)
  uuid_calls : nat;            (* calls of uuidv4() so far *)
  random_calls : nat           (* calls of Math.random() so far *)
}.

Definition init : world := mkWorld [] 0 0.

Inductive error := TypeError (msg : string).

Inductive outcome (A : Type) :=
  | Ok (a : A)
  | Throw (e : error).
Arguments Ok {A} a.
Arguments Throw {A} e.

Definition M (A : Type) : Type := world → outcome A * world.

#[global] Instance M_ret : MRet M := λ A a w, (Ok a, w).
#[global] Instance M_bind : MBind M := λ A B f m w,
  match m w with
  | (Ok a, w') => f a w'
  | (Throw e, w') => (Throw e, w')
  end.

Definition throw {A} (e : error) : M A := λ w, (Throw e, w).

Definition read_customers : M (list Customer) := λ w, (Ok (customers w), w).

(** [customers.push(c)] *)
Definition push (c : Customer) : M () := λ w,
  (Ok (), mkWorld (customers w ++ [c]) (uuid_calls w) (random_calls w)).

(** [const { name, email } = req.body] *)
Definition destructure_name_email (b : value) : M (value * value) :=
  if object_coercible b
  then mret (get_property b "name", get_property b "email")
  else throw (TypeError "Cannot destructure property 'name' of 'req.body'").

(** [customers.find(c => c.id === rid)] *)
Definition find_by_id (rid : string) (cs : list Customer) : option Customer :=
  snd <$> list_find (λ c, id c = rid) cs.

Section Routes.
(** The [i]-th result of [uuidv4()] and of [Math.random()]. *)
Variable uuid_oracle : nat → string.
Variable random_oracle : nat → Float64.t.

Definition uuidv4 : M string := λ w,
  (Ok (uuid_oracle (uuid_calls w)),
   mkWorld (customers w) (S (uuid_calls w)) (random_calls w)).

Definition Math_random : M Float64.t := λ w,
  (Ok (random_oracle (random_calls w)),
   mkWorld (customers w) (uuid_calls w) (S (random_calls w))).

(** [router.get('/', ...)] *)
Definition get_all : M response :=
  cs ← read_customers;
  mret (res_json (VArr (Customer_value <$> cs)) res).

(** [router.post('/', ...)] *)
Definition post (req_body : value) : M response :=
  '(name, email) ← destructure_name_email req_body;
  id ← uuidv4;
  r ← Math_random;
  let newCustomer :=
    mkCustomer id name email (Float64.mul r (Float64.of_Z 100)) in
  push newCustomer;;
  mret (res_json (Customer_value newCustomer) (res_status 201 res)).

(** [router.get('/:id', ...)] *)
Definition get_one (params_id : string) : M response :=
  cs ← read_customers;
  match find_by_id params_id cs with
  | Some customer => mret (res_json (Customer_value customer) res)
  | None => mret (res_send "Customer not found" (res_status 404 res))
  end.

(** The record [post] builds and stores in world [w] from [req_body]. *)
Definition newCustomer (req_body : value) (w : world) : Customer :=
  mkCustomer (uuid_oracle (uuid_calls w))
    (get_property req_body "name") (get_property req_body "email")
    (Float64.mul (random_oracle (random_calls w)) (Float64.of_Z 100)).

(** Every stored id is a result of [uuidv4()], in call order. *)
Definition ids_are_draws (w : world) : Prop :=
  id <$> customers w = uuid_oracle <$> seq 0 (uuid_calls w).

(** The [i]-th stored record was built from the [i]-th result of
    [uuidv4()] and of [Math.random()], and no result was drawn in vain. *)
Definition draws_in_order (w : world) : Prop :=
  uuid_calls w = length (customers w) ∧
  random_calls w = length (customers w) ∧
  ∀ i c, customers w !! i = Some c →
    id c = uuid_oracle i ∧
    healthScore c = Float64.mul (random_oracle i) (Float64.of_Z 100).

(** The three routes of [/api/customers]. *)
Inductive request :=
  | GET_customers
  | POST_customers (req_body : value)
  | GET_customer (params_id : string).

Definition router (req : request) : M response :=
  match req with
  | GET_customers => get_all
  | POST_customers b => post b
  | GET_customer rid => get_one rid
  end.

(** A sequence of requests, served one after the other. *)
Fixpoint run (reqs : list request) (w : world) : list (outcome response) * world :=
  match reqs with
  | [] => ([], w)
  | req :: rest =>
      let '(o, w1) := router req w in
      let '(os, w2) := run rest w1 in
      (o :: os, w2)
  end.

End Routes.

(** The record announced by a 201 response, if the outcome is one. *)
Definition created (o : outcome response) : option value :=
  match o with
  | Ok (mkResponse code (Json v)) => if (code =? 201)%Z then Some v else None
  | _ => None
  end.

(** ** The health-score badge of the customer list ([CustomerList], the
    conditional of the [className] template) *)

Definition healthScore_badge (healthScore : Float64.t) : string :=
  if Float64.leb (Float64.of_Z 90) healthScore then "bg-green-200 text-green-800"
  else if Float64.leb (Float64.of_Z 80) healthScore then "bg-yellow-200 text-yellow-800"
  else "bg-red-200 text-red-800".

(** ** Example oracles and requests, for the concrete runs below *)

Definition demo_uuid (i : nat) : string := pretty i.
Definition demo_random (i : nat) : Float64.t :=
  Float64.mk (2 ^ 52 + Z.of_nat i mod 2 ^ 52) (-53).

Definition test_body : value :=
  VObj [("name", VStr "Test Customer"); ("email", VStr "test@example.com")]%string.

(** ** Facts about the scaling of a random draw *)

Local Open Scope Z_scope.

Section Float64_facts.
Import Float64.

Lemma leb_zero_mant x : leb (of_Z 0) x = true ↔ 0 <= mant x.
Proof.
  unfold leb, align; cbn.
  rewrite Z.leb_le.
  assert (0 < 2 ^ (expo x - Z.min 0 (expo x))) by (apply Z.pow_pos_nonneg; lia).
  split; nia.
Qed.

Lemma ltb_one_inv x :
  0 <= mant x → ltb x (of_Z 1) = true →
  mant x = 0 ∨ (expo x < 0 ∧ mant x < 2 ^ (- expo x)).
Proof.
  unfold ltb, align; cbn. intros Hm H. apply Z.ltb_lt in H.
  destruct (Z.lt_ge_cases (expo x) 0) as [He|He].
  - right. split; [done|].
    rewrite Z.min_l, Z.sub_diag, Z.mul_1_r, Z.mul_1_l in H by lia.
    by replace (- expo x) with (0 - expo x) by lia.
  - left.
    rewrite Z.min_r, Z.sub_0_r, Z.sub_diag, Z.mul_1_l in H by lia.
    assert (0 < 2 ^ expo x) by (apply Z.pow_pos_nonneg; lia). nia.
Qed.

Lemma ltb_hundred_neg q e :
  e < 0 → q < 100 * 2 ^ (- e) → ltb (mk q e) (of_Z 100) = true.
Proof.
  intros He Hq. unfold ltb, align; cbn. apply Z.ltb_lt.
  rewrite Z.min_l, Z.sub_diag, Z.mul_1_r by lia.
  by replace (0 - e) with (- e) by lia.
Qed.

(** The scaling of line 19 stays in range: rounding [100 * r] cannot reach
    100, because at most seven bits are dropped and [r] is at least one
    unit in the last place below 1. *)
Lemma mul_100_range r :
  unit_interval r → percent_range (mul r (of_Z 100)).
Proof.
  intros ([Hp He] & H0 & H1). apply leb_zero_mant in H0.
  apply ltb_one_inv in H1; [|done].
  destruct r as [m e]; cbn in *. rewrite Z.abs_eq in Hp by done.
  unfold percent_range, mul, round; cbn [mant expo of_Z].
  rewrite Z.add_0_r, Z.abs_eq by lia.
  set (k := Z.max _ _).
  destruct (Z.leb_spec k 0) as [Hk|Hk].
  - split; [apply leb_zero_mant; cbn; lia|].
    destruct H1 as [->|[He' Hm]].
    + unfold ltb, align; cbn. apply Z.ltb_lt.
      assert (0 < 2 ^ (0 - Z.min e 0)) by (apply Z.pow_pos_nonneg; lia). lia.
    + apply ltb_hundred_neg; lia.
  - assert (Hk' : k = Z.log2 (m * 100) + 1 - prec) by (unfold emin in *; lia).
    assert (Hpos : 0 < m * 100).
    { destruct (Z.eq_dec m 0) as [->|]; [|lia]. subst k. unfold prec, emin in *.
      change (Z.log2 (0 * 100)) with 0 in Hk. lia. }
    assert (Hlo : 2 ^ 53 <= m * 100).
    { apply Z.log2_le_pow2; unfold prec in *; lia. }
    assert (Hhi : k <= 7).
    { assert (Z.log2 (m * 100) < 60); [|unfold prec in *; lia].
      apply Z.log2_lt_pow2; [done|]. unfold prec in *.
      change (2 ^ 60) with (128 * 2 ^ 53). lia. }
    destruct H1 as [->|[He' Hm]]; [lia|].
    assert (Hexp : 47 <= - e).
    { apply Z.nlt_ge. intros Hc.
      assert (2 ^ (- e) <= 2 ^ 46) by (apply Z.pow_le_mono_r; lia).
      change (2 ^ 53) with (128 * 2 ^ 46) in Hlo. lia. }
    rewrite Z.shiftr_div_pow2 by lia.
    set (q := m * 100 / 2 ^ k). set (rem := (m * 100) mod 2 ^ k).
    assert (Hsplit : 2 ^ (- e) = 2 ^ (- e - k) * 2 ^ k).
    { rewrite <- Z.pow_add_r by lia. f_equal. lia. }
    assert (HP : 0 < 2 ^ (- e - k)) by (apply Z.pow_pos_nonneg; lia).
    set (P := 2 ^ (- e - k)) in *.
    assert (Hdiv : m * 100 = 2 ^ k * q + rem ∧ 0 <= rem < 2 ^ k).
    { split; [apply Z.div_mod|apply Z.mod_pos_bound]; lia. }
    assert (Hsgn : Z.sgn (m * 100) = 1) by (apply Z.sgn_pos; lia).
    rewrite Hsgn, Z.mul_1_l.
    assert (Hq0 : 0 <= q) by (apply Z.div_pos; lia).
    assert (Hhalf : 2 * 2 ^ (k - 1) = 2 ^ k).
    { rewrite <- Z.pow_succ_r by lia. f_equal. lia. }
    set (half := 2 ^ (k - 1)) in *.
    set (up := (half <? rem) || ((rem =? half) && Z.odd q)).
    assert (Hup : up = true → half <= rem).
    { subst up. intros [H%Z.ltb_lt|[H%Z.eqb_eq _]%andb_prop]%orb_prop; lia. }
    split.
    { apply leb_zero_mant; cbn. destruct up; lia. }
    apply ltb_hundred_neg; [lia|].
    replace (- (e + k)) with (- e - k) by lia. fold P.
    clearbody q rem P half up. clear Hk' Hlo.
    assert (Hcases : k = 1 ∨ k = 2 ∨ k = 3 ∨ k = 4 ∨ k = 5 ∨ k = 6 ∨ k = 7) by lia.
    destruct up; [specialize (Hup eq_refl)|clear Hup];
      destruct Hcases as [->|[->|[->|[->|[->|[->| ->]]]]]]; lia.
Qed.

End Float64_facts.

Local Close Scope Z_scope.

(** [Float64.mul] against the Standard Library's IEEE-754 multiplication:
    draws next to 0, 1/100, 1/2 and 1, every number of dropped bits from 0
    to 7, ties to even in both directions, subnormal results and signs. *)
Example mul_agrees_with_IEEE754 :
  forallb Float64.agrees_with_spec
    [ (Float64.mk (2 ^ 53 - 1) (-53), Float64.of_Z 100);
      (Float64.mk (2 ^ 53 - 2) (-53), Float64.of_Z 100);
      (Float64.mk (2 ^ 52) (-53), Float64.of_Z 100);
      (Float64.mk (2 ^ 52 + 1) (-53), Float64.of_Z 100);
      (Float64.mk 0 0, Float64.of_Z 100);
      (Float64.mk 1 (-1074), Float64.of_Z 100);
      (Float64.mk (2 ^ 52 - 1) (-1074), Float64.of_Z 100);
      (Float64.mk 5764607523034235 (-59), Float64.of_Z 100);
      (Float64.mk 90071992547409 (-53), Float64.of_Z 100);
      (Float64.mk 90071992547410 (-53), Float64.of_Z 100);
      (Float64.mk 180143985094820 (-53), Float64.of_Z 100);
      (Float64.mk 360287970189640 (-53), Float64.of_Z 100);
      (Float64.mk 720575940379280 (-53), Float64.of_Z 100);
      (Float64.mk 1441151880758559 (-53), Float64.of_Z 100);
      (Float64.mk 2882303761517118 (-53), Float64.of_Z 100);
      (Float64.mk 5764607523034235 (-53), Float64.of_Z 100);
      (Float64.mk (2 ^ 52 + 8) (-53), Float64.of_Z 100);
      (Float64.mk (2 ^ 52 + 24) (-53), Float64.of_Z 100);
      (Float64.mk (2 ^ 53 - 16) (-53), Float64.of_Z 100);
      (Float64.mk (2 ^ 53 - 48) (-53), Float64.of_Z 100);
      (Float64.mk 5404319552844595 (-54), Float64.mk 1 (-1074));
      (Float64.mk 5404319552844595 (-54), Float64.mk 7 (-1074));
      (Float64.mk (- (2 ^ 53 - 1)) (-53), Float64.of_Z 100);
      (Float64.mk (2 ^ 53 - 1) (-53), Float64.mk (- (2 ^ 53 - 1)) 0) ]%Z
  = true.
Proof. vm_compute. reflexivity. Qed.

(** ** Basic facts about the handlers *)

Lemma strict_json_coercible b : strict_json b = true → object_coercible b = true.
Proof. by destruct b. Qed.

Lemma demo_uuid_inj i j : demo_uuid i = demo_uuid j → i = j.
Proof. apply (inj pretty). Qed.

Lemma demo_random_unit i : unit_interval (demo_random i).
Proof.
  pose proof (Z.mod_pos_bound (Z.of_nat i) (2 ^ 52)%Z eq_refl) as Hi.
  repeat split.
  - unfold Float64.prec; cbn. lia.
  - unfold Float64.emin; cbn. lia.
  - apply leb_zero_mant; cbn. lia.
  - unfold Float64.ltb, Float64.align; cbn. apply Z.ltb_lt.
    change (-53 - (-53) `min` 0)%Z with 0%Z.
    change (0 - (-53) `min` 0)%Z with 53%Z. lia.
Qed.

Section Route_facts.
Variable uuid_oracle : nat → string.
Variable random_oracle : nat → Float64.t.

Local Abbreviation post' := (post uuid_oracle random_oracle).
Local Abbreviation router' := (router uuid_oracle random_oracle).
Local Abbreviation run' := (run uuid_oracle random_oracle).
Local Abbreviation newCustomer' := (newCustomer uuid_oracle random_oracle).

Lemma post_coercible b w :
  object_coercible b = true →
  post' b w =
    (Ok (mkResponse 201 (Json (Customer_value (newCustomer' b w)))),
     mkWorld (customers w ++ [newCustomer' b w])
       (S (uuid_calls w)) (S (random_calls w))).
Proof.
  intros Hb. unfold post, destructure_name_email, mbind, M_bind.
  by rewrite Hb.
Qed.

Lemma post_not_coercible b w :
  object_coercible b = false → ∃ e, post' b w = (Throw e, w).
Proof.
  intros Hb. unfold post, destructure_name_email, mbind, M_bind.
  rewrite Hb. by eexists.
Qed.

Lemma get_all_eq w :
  get_all w = (Ok (mkResponse 200 (Json (VArr (Customer_value <$> customers w)))), w).
Proof. done. Qed.

Lemma get_one_eq rid w :
  get_one rid w =
    (Ok (match find_by_id rid (customers w) with
         | Some c => mkResponse 200 (Json (Customer_value c))
         | None => mkResponse 404 (Text "Customer not found")
         end), w).
Proof.
  unfold get_one, mbind, M_bind, read_customers.
  by destruct (find_by_id rid (customers w)).
Qed.

Lemma find_by_id_first rid l1 c l2 :
  id c = rid → rid ∉ (id <$> l1) → find_by_id rid (l1 ++ c :: l2) = Some c.
Proof.
  intros Hc Hl1. unfold find_by_id.
  rewrite list_find_app_r.
  - cbn. by rewrite decide_True.
  - apply list_find_None, Forall_forall. intros c' Hc' Heq.
    apply Hl1, list_elem_of_fmap. eauto.
Qed.

Lemma find_by_id_Some rid cs c :
  find_by_id rid cs = Some c → c ∈ cs ∧ id c = rid.
Proof.
  unfold find_by_id. destruct (list_find _ cs) as [[i c']|] eqn:Hf; [|done].
  intros [= <-]. apply list_find_Some in Hf as (Hi & Hid & _).
  split; [by eapply list_elem_of_lookup_2|done].
Qed.

Lemma find_by_id_None rid cs :
  find_by_id rid cs = None → rid ∉ (id <$> cs).
Proof.
  unfold find_by_id. destruct (list_find _ cs) as [[i c']|] eqn:Hf; [done|].
  intros _ (c & Hid & Hc)%list_elem_of_fmap.
  apply list_find_None in Hf. by eapply Forall_forall in Hf.
Qed.

(** One request: the store either stays as it is or gains one record at
    its end, and a record is gained exactly with a 201 response. *)
Lemma router_step req w :
  ∃ o w', router' req w = (o, w') ∧
    ((w' = w ∧ created o = None) ∨
     (∃ b, req = POST_customers b ∧
        o = Ok (mkResponse 201 (Json (Customer_value (newCustomer' b w)))) ∧
        w' = mkWorld (customers w ++ [newCustomer' b w])
               (S (uuid_calls w)) (S (random_calls w)))).
Proof.
  destruct req as [|b|rid]; cbn [router].
  - rewrite get_all_eq. eauto 6.
  - destruct (object_coercible b) eqn:Hb.
    + rewrite post_coercible by done. eauto 8.
    + destruct (post_not_coercible b w Hb) as [e ->]. eauto 6.
  - rewrite get_one_eq. do 2 eexists. split; [done|left].
    split; [done|]. by destruct (find_by_id _ _).
Qed.

Lemma router_ids_are_draws req w :
  ids_are_draws uuid_oracle w → ids_are_draws uuid_oracle (router' req w).2.
Proof.
  intros Hw. destruct (router_step req w) as (o & w' & -> & [[-> _]|(b & _ & _ & ->)]);
    [done|].
  unfold ids_are_draws in *; cbn [customers uuid_calls snd].
  by rewrite fmap_app, seq_S, fmap_app, Hw.
Qed.

Lemma run_ids_are_draws reqs w :
  ids_are_draws uuid_oracle w → ids_are_draws uuid_oracle (run' reqs w).2.
Proof.
  revert w. induction reqs as [|req reqs IH]; intros w Hw; [done|].
  cbn. pose proof (router_ids_are_draws req w Hw) as H1.
  destruct (router' req w) as [o w1]. specialize (IH w1 H1).
  by destruct (run _ _ reqs w1).
Qed.

Lemma run_prefix reqs w : customers w `prefix_of` customers (run' reqs w).2.
Proof.
  revert w. induction reqs as [|req reqs IH]; intros w; [done|].
  cbn. destruct (router_step req w) as (o & w1 & -> & Hstep).
  specialize (IH w1). destruct (run _ _ reqs w1) as [os w2]; cbn in *.
  etrans; [|exact IH].
  destruct Hstep as [[-> _]|(b & _ & _ & ->)]; [done|]. by apply prefix_app_r.
Qed.

Lemma run_created reqs w :
  Customer_value <$> customers (run' reqs w).2 =
  (Customer_value <$> customers w) ++ omap created (run' reqs w).1.
Proof.
  revert w. induction reqs as [|req reqs IH]; intros w.
  { cbn. by rewrite app_nil_r. }
  cbn. destruct (router_step req w) as (o & w1 & -> & Hstep).
  specialize (IH w1). destruct (run _ _ reqs w1) as [os w2]; cbn in *.
  rewrite IH. destruct Hstep as [[-> ->]|(b & _ & -> & ->)]; [done|].
  cbn. by rewrite fmap_app, <- app_assoc.
Qed.

Lemma ids_are_draws_NoDup w :
  (∀ i j, uuid_oracle i = uuid_oracle j → i = j) →
  ids_are_draws uuid_oracle w → NoDup (id <$> customers w).
Proof.
  intros Hinj ->. apply (NoDup_fmap_2 uuid_oracle (Inj0:=Hinj)), NoDup_seq.
Qed.

Lemma ids_are_draws_fresh w :
  (∀ i j, uuid_oracle i = uuid_oracle j → i = j) →
  ids_are_draws uuid_oracle w →
  uuid_oracle (uuid_calls w) ∉ (id <$> customers w).
Proof.
  intros Hinj -> (i & Hi%Hinj & Hin%elem_of_seq)%list_elem_of_fmap. lia.
Qed.

End Route_facts.

(** ** The test of [src/tests/customerRoutes.test.ts], on the example oracles *)

Example test_create_customer :
  run demo_uuid demo_random [POST_customers test_body] init =
    ([Ok (mkResponse 201 (Json (VObj
        [("id", VStr "0"); ("name", VStr "Test Customer");
         ("email", VStr "test@example.com");
         ("healthScore", VNum (Float64.mk 7036874417766400 (-47)))]%string)))],
     mkWorld [mkCustomer "0" (VStr "Test Customer") (VStr "test@example.com")
                (Float64.mk 7036874417766400 (-47))] 1 1).
Proof. vm_compute. reflexivity. Qed.

(** The largest double below 1 scales to the largest double below 100. *)
Example mul_100_largest_draw :
  Float64.mul (Float64.mk (2 ^ 53 - 1) (-53)) (Float64.of_Z 100) =
    Float64.mk (100 * 2 ^ 46 - 1) (-46).
Proof. vm_compute. reflexivity. Qed.

(** ** The properties of the specification *)

(** C1. For a request body with fields [name] and [email], POST
    /api/customers builds a record whose [name] and [email] are those of
    the body, whose [id] is the value just generated by [uuidv4()] (held by
    no stored record, as [uuidv4()] never repeats) and whose [healthScore]
    is 100 times the [Math.random()] draw, a value in [0, 100); it appends
    the record to the store and answers 201 with the record as body. *)
Theorem post_creates_customer uuid rand reqs props n e :
  (∀ i j, uuid i = uuid j → i = j) →
  (∀ i, unit_interval (rand i)) →
  assoc "name" props = Some n →
  assoc "email" props = Some e →
  let w := (run uuid rand reqs init).2 in
  let c := mkCustomer (uuid (uuid_calls w)) n e
             (Float64.mul (rand (random_calls w)) (Float64.of_Z 100)) in
  ∃ w', post uuid rand (VObj props) w =
          (Ok (mkResponse 201 (Json (Customer_value c))), w')
      ∧ customers w' = customers w ++ [c]
      ∧ (id c ∉ (id <$> customers w))
      ∧ percent_range (healthScore c).
Proof.
  intros Hinj Hrand Hn He w c. eexists.
  rewrite post_coercible by done.
  unfold newCustomer, get_property. rewrite Hn, He. cbn [default].
  split; [done|split; [done|split]].
  - apply ids_are_draws_fresh; [done|]. by apply run_ids_are_draws.
  - by apply mul_100_range.
Qed.

Lemma post_creates_customer_witness :
  let w := (run demo_uuid demo_random [POST_customers test_body; GET_customers] init).2 in
  let c := mkCustomer "1" (VStr "Test Customer") (VStr "test@example.com")
             (Float64.mul (demo_random 1) (Float64.of_Z 100)) in
  ∃ w', post demo_uuid demo_random test_body w =
          (Ok (mkResponse 201 (Json (Customer_value c))), w')
      ∧ customers w' = customers w ++ [c]
      ∧ (id c ∉ (id <$> customers w))
      ∧ percent_range (healthScore c).
Proof.
  exact (post_creates_customer demo_uuid demo_random
           [POST_customers test_body; GET_customers]
           [("name", VStr "Test Customer"); ("email", VStr "test@example.com")]%string
           (VStr "Test Customer") (VStr "test@example.com")
           demo_uuid_inj demo_random_unit eq_refl eq_refl).
Defined.

(** C2. In every store state GET /api/customers answers 200 with the whole
    store, in insertion order, and does not fail; after any requests served
    from the empty store, the listing is exactly the records announced by
    the 201 responses, in the order they were created. *)
Theorem get_all_lists_store uuid rand reqs w :
  get_all w =
    (Ok (mkResponse 200 (Json (VArr (Customer_value <$> customers w)))), w)
  ∧ (let served := run uuid rand reqs init in
     get_all served.2 =
       (Ok (mkResponse 200 (Json (VArr (omap created served.1)))), served.2)
     ∧ length (customers served.2) = length (omap created served.1)).
Proof.
  split; [done|]. cbn zeta.
  pose proof (run_created uuid rand reqs init) as Hc. cbn in Hc.
  rewrite get_all_eq, Hc. split; [done|].
  by rewrite <- Hc, length_fmap.
Qed.

(** C3. GET /api/customers/:id never throws and leaves the store as it is;
    it answers 200 with a stored record of that id when the store holds
    one, and 404 with the text "Customer not found" when it holds none. *)
Theorem get_one_found_or_404 rid w :
  ∃ resp, get_one rid w = (Ok resp, w) ∧
    ((∃ c, c ∈ customers w ∧ id c = rid ∧
           resp = mkResponse 200 (Json (Customer_value c)))
     ∨ ((rid ∉ (id <$> customers w)) ∧
        resp = mkResponse 404 (Text "Customer not found"))).
Proof.
  rewrite get_one_eq. eexists. split; [done|].
  destruct (find_by_id rid (customers w)) as [c|] eqn:Hf.
  - left. apply find_by_id_Some in Hf as [Hin Hid]. eauto.
  - right. by apply find_by_id_None in Hf.
Qed.

(** C4. As [uuidv4()] never repeats, after every sequence of requests
    served from the empty store no two stored records have the same id.
    Nothing else is checked: two records with the same email and an empty
    name are stored, and the store's [push] takes any record at all. *)
Theorem ids_unique uuid rand reqs :
  (∀ i j, uuid i = uuid j → i = j) →
  NoDup (id <$> customers (run uuid rand reqs init).2)
  ∧ (let b := VObj [("name", VStr ""); ("email", VStr "a@example.com")]%string in
     ∃ c1 c2,
       customers (run uuid rand [POST_customers b; POST_customers b] init).2 = [c1; c2]
       ∧ email c1 = email c2 ∧ name c1 = VStr "" ∧ name c2 = VStr "")
  ∧ (∀ c w, ∃ w', push c w = (Ok (), w') ∧ customers w' = customers w ++ [c]).
Proof.
  intros Hinj. split; [|split].
  - apply (ids_are_draws_NoDup uuid); [done|]. by apply run_ids_are_draws.
  - cbn. by do 2 eexists.
  - intros c w. by eexists.
Qed.

Lemma ids_unique_witness :
  NoDup (id <$> customers
    (run demo_uuid demo_random
       [POST_customers test_body; GET_customers; POST_customers test_body;
        POST_customers VNull; GET_customer "0"; POST_customers (VArr [])]
       init).2).
Proof.
  exact (proj1 (ids_unique demo_uuid demo_random
    [POST_customers test_body; GET_customers; POST_customers test_body;
     POST_customers VNull; GET_customer "0"; POST_customers (VArr [])]
    demo_uuid_inj)).
Defined.

(** C5. The health score of every customer created by POST /api/customers
    is at least 0 and strictly below 100. *)
Theorem healthScore_in_range uuid rand req_body w :
  (∀ i, unit_interval (rand i)) →
  object_coercible req_body = true →
  ∃ c w', post uuid rand req_body w =
            (Ok (mkResponse 201 (Json (Customer_value c))), w')
      ∧ last (customers w') = Some c
      ∧ Float64.leb (Float64.of_Z 0) (healthScore c) = true
      ∧ Float64.ltb (healthScore c) (Float64.of_Z 100) = true.
Proof.
  intros Hrand Hb. do 2 eexists. rewrite post_coercible by done.
  split; [done|]. cbn [customers]. rewrite last_snoc. split; [done|].
  by apply mul_100_range.
Qed.

Lemma healthScore_in_range_witness :
  ∃ c w', post demo_uuid demo_random test_body init =
            (Ok (mkResponse 201 (Json (Customer_value c))), w')
      ∧ last (customers w') = Some c
      ∧ Float64.leb (Float64.of_Z 0) (healthScore c) = true
      ∧ Float64.ltb (healthScore c) (Float64.of_Z 100) = true.
Proof.
  exact (healthScore_in_range demo_uuid demo_random test_body init
           demo_random_unit eq_refl).
Defined.

(** C6. POST /api/customers is not idempotent: the same body posted twice
    is answered 201 twice and leaves two more records in the store, which
    differ and have different ids. *)
Theorem post_not_idempotent uuid rand req_body w :
  (∀ i j, uuid i = uuid j → i = j) →
  object_coercible req_body = true →
  ∃ c1 c2 w1 w2,
    post uuid rand req_body w =
      (Ok (mkResponse 201 (Json (Customer_value c1))), w1)
    ∧ post uuid rand req_body w1 =
        (Ok (mkResponse 201 (Json (Customer_value c2))), w2)
    ∧ customers w2 = customers w ++ [c1; c2]
    ∧ length (customers w2) = 2 + length (customers w)
    ∧ id c1 ≠ id c2 ∧ c1 ≠ c2.
Proof.
  intros Hinj Hb. do 4 eexists.
  rewrite !post_coercible by done.
  split; [done|split; [done|]].
  unfold newCustomer. cbn [customers uuid_calls random_calls id].
  rewrite <- app_assoc. split; [done|].
  split; [rewrite length_app; cbn; lia|].
  assert (uuid (uuid_calls w) ≠ uuid (S (uuid_calls w))) as Hne.
  { intros Heq%Hinj. lia. }
  split; [done|]. intros Heq. by apply (f_equal id) in Heq.
Qed.

Lemma post_not_idempotent_witness :
  ∃ c1 c2 w1 w2,
    post demo_uuid demo_random test_body init =
      (Ok (mkResponse 201 (Json (Customer_value c1))), w1)
    ∧ post demo_uuid demo_random test_body w1 =
        (Ok (mkResponse 201 (Json (Customer_value c2))), w2)
    ∧ customers w2 = customers init ++ [c1; c2]
    ∧ length (customers w2) = 2 + length (customers init)
    ∧ id c1 ≠ id c2 ∧ c1 ≠ c2.
Proof.
  exact (post_not_idempotent demo_uuid demo_random test_body init
           demo_uuid_inj eq_refl).
Defined.

(** C7. The store changes by append only: the two GET handlers leave the
    whole process state as it is, and after any sequence of requests the
    earlier store is a prefix of the later one, so every record stored
    before is still there, at its place and unmodified. *)
Theorem store_append_only uuid rand reqs rid w :
  (get_all w).2 = w
  ∧ (get_one rid w).2 = w
  ∧ customers w `prefix_of` customers (run uuid rand reqs w).2.
Proof.
  split; [done|split].
  - by rewrite get_one_eq.
  - apply run_prefix.
Qed.

(** C8. Creation validates nothing and checks no duplicate: for every body
    the handler can destructure (every object and array, which is all that
    [express.json()] delivers, see [strict_json_coercible]), whatever its
    [name] and [email] and whatever the store holds, POST /api/customers
    answers 201 and the store grows by exactly one record, at its end. *)
Theorem post_always_succeeds uuid rand req_body w :
  object_coercible req_body = true →
  ∃ c w', post uuid rand req_body w =
            (Ok (mkResponse 201 (Json (Customer_value c))), w')
      ∧ customers w' = customers w ++ [c]
      ∧ length (customers w') = S (length (customers w)).
Proof.
  intros Hb. do 2 eexists. rewrite post_coercible by done.
  split; [done|split; [done|]].
  cbn [customers]. rewrite length_app. cbn. lia.
Qed.

Lemma post_always_succeeds_witness :
  let b := VObj [("email", VBool true)]%string in
  let w := (run demo_uuid demo_random [POST_customers b] init).2 in
  ∃ c w', post demo_uuid demo_random b w =
            (Ok (mkResponse 201 (Json (Customer_value c))), w')
      ∧ customers w' = customers w ++ [c]
      ∧ length (customers w') = S (length (customers w)).
Proof.
  intros b w.
  exact (post_always_succeeds demo_uuid demo_random b w eq_refl).
Defined.

(** C9. Fields of the body other than [name] and [email], [id] and
    [healthScore] among them, are ignored: two bodies that agree on [name]
    and [email] give, with the same [uuidv4()] and [Math.random()] results,
    the same record, the same 201 response and the same store. *)
Theorem post_ignores_other_fields uuid rand b1 b2 w :
  object_coercible b1 = true →
  object_coercible b2 = true →
  get_property b1 "name" = get_property b2 "name" →
  get_property b1 "email" = get_property b2 "email" →
  post uuid rand b1 w = post uuid rand b2 w.
Proof.
  intros H1 H2 Hn He. rewrite !post_coercible by done.
  unfold newCustomer. by rewrite Hn, He.
Qed.

Lemma post_ignores_other_fields_witness :
  let b2 := VObj [("id", VStr "chosen-by-client");
                  ("healthScore", VNum (Float64.of_Z 1000));
                  ("name", VStr "Test Customer");
                  ("email", VStr "test@example.com");
                  ("admin", VBool true)]%string in
  post demo_uuid demo_random test_body init = post demo_uuid demo_random b2 init.
Proof.
  intros b2.
  exact (post_ignores_other_fields demo_uuid demo_random test_body b2 init
           eq_refl eq_refl eq_refl eq_refl).
Defined.

(** C10. When several stored records have the requested id, GET
    /api/customers/:id answers with the one appended first: the lookup
    scans the store in insertion order and stops at the first match. *)
Theorem get_one_first_match rid w l1 c l2 :
  customers w = l1 ++ c :: l2 →
  id c = rid →
  rid ∉ (id <$> l1) →
  get_one rid w = (Ok (mkResponse 200 (Json (Customer_value c))), w).
Proof.
  intros Hw Hc Hl1. rewrite get_one_eq, Hw.
  by rewrite find_by_id_first.
Qed.

Lemma get_one_first_match_witness :
  let other := mkCustomer "other" (VStr "A") VNull (Float64.of_Z 1) in
  let first := mkCustomer "same" (VStr "B") VNull (Float64.of_Z 2) in
  let second := mkCustomer "same" (VStr "C") VNull (Float64.of_Z 3) in
  let w := mkWorld [other; first; second; first] 4 4 in
  get_one "same" w = (Ok (mkResponse 200 (Json (Customer_value first))), w).
Proof.
  intros other first second w.
  apply (get_one_first_match "same" w [other] first [second; first]).
  - reflexivity.
  - reflexivity.
  - cbn. rewrite list_elem_of_singleton. discriminate.
Defined.

(** ** Further properties of the handlers *)

Lemma Customer_value_inj c1 c2 : Customer_value c1 = Customer_value c2 → c1 = c2.
Proof. destruct c1, c2. by intros [= -> -> -> ->]. Qed.

Lemma find_by_id_app_l rid l k c :
  find_by_id rid l = Some c → find_by_id rid (l ++ k) = Some c.
Proof.
  unfold find_by_id. destruct (list_find _ l) as [[i c']|] eqn:Hf; [|done].
  intros [= <-]. by rewrite (list_find_app_l _ _ k _ _ Hf).
Qed.

Lemma find_by_id_NoDup cs c :
  NoDup (id <$> cs) → c ∈ cs → find_by_id (id c) cs = Some c.
Proof.
  intros Hnd (l1 & l2 & ->)%list_elem_of_split.
  apply find_by_id_first; [done|].
  rewrite fmap_app in Hnd. apply NoDup_app in Hnd as (_ & Hdis & _).
  intros Hin. apply (Hdis _ Hin). cbn. left.
Qed.

Lemma get_one_200_inv rid w c :
  get_one rid w = (Ok (mkResponse 200 (Json (Customer_value c))), w) →
  find_by_id rid (customers w) = Some c.
Proof.
  rewrite get_one_eq. destruct (find_by_id rid (customers w)) as [c'|]; [|done].
  intros Heq. f_equal. apply Customer_value_inj. congruence.
Qed.

Lemma run_draws_in_order uuid rand reqs w :
  draws_in_order uuid rand w → draws_in_order uuid rand (run uuid rand reqs w).2.
Proof.
  revert w. induction reqs as [|req reqs IH]; intros w Hw; [done|].
  cbn [run]. destruct (router_step uuid rand req w) as (o & w1 & -> & Hstep).
  assert (draws_in_order uuid rand w1) as H1.
  { destruct Hstep as [[-> _]|(b & _ & _ & ->)]; [done|].
    destruct Hw as (Hu & Hr & Hrec).
    unfold draws_in_order; cbn [customers uuid_calls random_calls].
    rewrite length_app; cbn [length]. split; [lia|split; [lia|]].
    intros i c [Hi|[Hi Hc]]%lookup_app_Some; [by apply Hrec|].
    apply list_lookup_singleton_Some in Hc as [Hi' <-].
    assert (i = length (customers w)) as -> by lia.
    unfold newCustomer; cbn [id healthScore]. by rewrite Hu, Hr. }
  specialize (IH w1 H1). by destruct (run uuid rand reqs w1).
Qed.

Lemma init_draws_in_order uuid rand : draws_in_order uuid rand init.
Proof. by repeat split. Qed.

(** X1. Create, then read back: after a POST answered 201, GET
    /api/customers/:id with the id of the announced record answers 200 with
    that very record (in a store built by requests, [uuidv4()] never
    repeating). *)
Theorem create_then_get uuid rand reqs req_body :
  (∀ i j, uuid i = uuid j → i = j) →
  object_coercible req_body = true →
  ∃ c w',
    post uuid rand req_body (run uuid rand reqs init).2 =
      (Ok (mkResponse 201 (Json (Customer_value c))), w')
    ∧ get_one (id c) w' = (Ok (mkResponse 200 (Json (Customer_value c))), w').
Proof.
  intros Hinj Hb. do 2 eexists. rewrite post_coercible by done.
  split; [done|]. rewrite get_one_eq. cbn [customers].
  rewrite find_by_id_first; [done..|].
  apply ids_are_draws_fresh; [done|]. by apply run_ids_are_draws.
Qed.

Lemma create_then_get_witness :
  ∃ c w',
    post demo_uuid demo_random test_body
      (run demo_uuid demo_random
         [POST_customers test_body; POST_customers (VArr [])] init).2 =
      (Ok (mkResponse 201 (Json (Customer_value c))), w')
    ∧ get_one (id c) w' = (Ok (mkResponse 200 (Json (Customer_value c))), w').
Proof.
  exact (create_then_get demo_uuid demo_random
           [POST_customers test_body; POST_customers (VArr [])] test_body
           demo_uuid_inj eq_refl).
Defined.

(** X2. No stored record is shadowed: in a store built by requests
    ([uuidv4()] never repeating), GET /api/customers/:id with the id of any
    stored record answers 200 with exactly that record. *)
Theorem every_record_retrievable uuid rand reqs c :
  (∀ i j, uuid i = uuid j → i = j) →
  c ∈ customers (run uuid rand reqs init).2 →
  get_one (id c) (run uuid rand reqs init).2 =
    (Ok (mkResponse 200 (Json (Customer_value c))), (run uuid rand reqs init).2).
Proof.
  intros Hinj Hc. rewrite get_one_eq, find_by_id_NoDup; [done| |done].
  apply (ids_are_draws_NoDup uuid); [done|]. by apply run_ids_are_draws.
Qed.

Lemma every_record_retrievable_witness :
  let reqs := [POST_customers test_body; POST_customers test_body;
               POST_customers VNull; POST_customers test_body] in
  let c := mkCustomer "1" (VStr "Test Customer") (VStr "test@example.com")
             (Float64.mul (demo_random 1) (Float64.of_Z 100)) in
  get_one (id c) (run demo_uuid demo_random reqs init).2 =
    (Ok (mkResponse 200 (Json (Customer_value c))),
     (run demo_uuid demo_random reqs init).2).
Proof.
  intros reqs c.
  apply (every_record_retrievable demo_uuid demo_random reqs c demo_uuid_inj).
  vm_compute. right. left.
Defined.

(** X3. A found record stays found: once GET /api/customers/:id has
    answered 200 with a record, it answers 200 with the same record after
    any further requests, whatever ids are generated later. *)
Theorem found_stays_found uuid rand reqs rid w c :
  get_one rid w = (Ok (mkResponse 200 (Json (Customer_value c))), w) →
  get_one rid (run uuid rand reqs w).2 =
    (Ok (mkResponse 200 (Json (Customer_value c))), (run uuid rand reqs w).2).
Proof.
  intros Hf%get_one_200_inv.
  destruct (run_prefix uuid rand reqs w) as [k Hk].
  by rewrite get_one_eq, Hk, (find_by_id_app_l _ _ _ _ Hf).
Qed.

Lemma found_stays_found_witness :
  let c := mkCustomer "0" (VStr "kept") VNull (Float64.of_Z 7) in
  let w := mkWorld [c] 0 0 in
  let reqs := [POST_customers (VObj [("name", VStr "reuses id 0")]%string);
               GET_customers] in
  get_one "0" (run demo_uuid demo_random reqs w).2 =
    (Ok (mkResponse 200 (Json (Customer_value c))),
     (run demo_uuid demo_random reqs w).2).
Proof.
  intros c w reqs.
  exact (found_stays_found demo_uuid demo_random reqs "0" w c eq_refl).
Defined.

(** X4. An id that [uuidv4()] has not produced so far is not found: in a
    store built by requests, GET /api/customers/:id answers 404 with
    "Customer not found" for it; on the empty store, for every id. *)
Theorem unknown_id_404 uuid rand reqs rid :
  (∀ i, i < uuid_calls (run uuid rand reqs init).2 → uuid i ≠ rid) →
  get_one rid (run uuid rand reqs init).2 =
    (Ok (mkResponse 404 (Text "Customer not found")), (run uuid rand reqs init).2).
Proof.
  intros Hnew. rewrite get_one_eq.
  destruct (find_by_id _ _) as [c|] eqn:Hf; [|done].
  apply find_by_id_Some in Hf as [(i & Hi)%list_elem_of_lookup_1 Hid].
  pose proof (run_draws_in_order uuid rand reqs init
                (init_draws_in_order uuid rand)) as (Hu & _ & Hrec).
  destruct (Hrec i c Hi) as [Hci _]. apply lookup_lt_Some in Hi.
  destruct (Hnew i); [lia|congruence].
Qed.

Lemma unknown_id_404_witness :
  get_one "2" (run demo_uuid demo_random
                 [POST_customers test_body; POST_customers test_body] init).2 =
    (Ok (mkResponse 404 (Text "Customer not found")),
     (run demo_uuid demo_random
        [POST_customers test_body; POST_customers test_body] init).2).
Proof.
  apply (unknown_id_404 demo_uuid demo_random
           [POST_customers test_body; POST_customers test_body] "2").
  intros i Hi. destruct i as [|[|i]]; [discriminate..|].
  exfalso. vm_compute in Hi. lia.
Defined.

(** X5. The only request that throws is a POST whose body is [null] or
    [undefined]: the destructuring fails before an id is generated, so
    nothing is stored and neither oracle is consulted.  Every other request
    is answered. *)
Theorem throws_only_on_nullish_post uuid rand req w :
  ((∃ e, (router uuid rand req w).1 = Throw e) ↔
   (∃ b, req = POST_customers b ∧ object_coercible b = false))
  ∧ ((∃ resp, (router uuid rand req w).1 = Ok resp) ↔
     ¬ (∃ b, req = POST_customers b ∧ object_coercible b = false))
  ∧ (∀ e, (router uuid rand req w).1 = Throw e → (router uuid rand req w).2 = w).
Proof.
  assert (Hok : ∀ (resp : response) (w' : world),
    (router uuid rand req w = (Ok resp, w')) →
    ¬ (∃ b, req = POST_customers b ∧ object_coercible b = false) →
    ((∃ e, (router uuid rand req w).1 = Throw e) ↔
     (∃ b, req = POST_customers b ∧ object_coercible b = false))
    ∧ ((∃ resp, (router uuid rand req w).1 = Ok resp) ↔
       ¬ (∃ b, req = POST_customers b ∧ object_coercible b = false))
    ∧ (∀ e, (router uuid rand req w).1 = Throw e → (router uuid rand req w).2 = w)).
  { intros resp w' -> Hno. cbn. split; [|split].
    - split; [by intros [e ?]|done].
    - split; [done|eauto].
    - by intros e ?. }
  destruct req as [|b|rid]; cbn [router] in *.
  - eapply Hok; [apply get_all_eq|]. by intros (b & ? & _).
  - destruct (object_coercible b) eqn:Hb.
    + eapply Hok; [by apply post_coercible|].
      intros (b' & [= <-] & Hb'). congruence.
    + clear Hok. destruct (post_not_coercible uuid rand b w Hb) as [e ->]. cbn.
      split; [|split].
      * split; eauto.
      * split; [by intros [resp ?]|]. intros []. eauto.
      * done.
  - eapply Hok; [apply get_one_eq|]. by intros (b & ? & _).
Qed.

(** X6. Missing fields are stored as [undefined]: a body object without
    [name] and without [email] is answered 201 like any other, and the
    record appended has both fields [undefined]; so is every array body. *)
Theorem post_missing_fields uuid rand props w :
  assoc "name" props = None →
  assoc "email" props = None →
  ∃ c w', post uuid rand (VObj props) w =
            (Ok (mkResponse 201 (Json (Customer_value c))), w')
      ∧ customers w' = customers w ++ [c]
      ∧ name c = VUndefined ∧ email c = VUndefined
      ∧ ∀ items, post uuid rand (VArr items) w = post uuid rand (VObj props) w.
Proof.
  intros Hn He. do 2 eexists. rewrite post_coercible by done.
  split; [done|split; [done|]].
  unfold newCustomer, get_property. rewrite Hn, He.
  split; [done|split; [done|]]. intros items.
  rewrite post_coercible by done. by unfold newCustomer, get_property.
Qed.

Lemma post_missing_fields_witness :
  let props := [("Name", VStr "wrong case"); ("mail", VStr "a@b.c")]%string in
  ∃ c w', post demo_uuid demo_random (VObj props) init =
            (Ok (mkResponse 201 (Json (Customer_value c))), w')
      ∧ customers w' = customers init ++ [c]
      ∧ name c = VUndefined ∧ email c = VUndefined
      ∧ ∀ items, post demo_uuid demo_random (VArr items) init =
                 post demo_uuid demo_random (VObj props) init.
Proof.
  intros props.
  exact (post_missing_fields demo_uuid demo_random props init eq_refl eq_refl).
Defined.

(** X7. Every record of a store built by requests, hence every record GET
    /api/customers can list, has a health score in [0, 100). *)
Theorem stored_scores_in_range uuid rand reqs c :
  (∀ i, unit_interval (rand i)) →
  c ∈ customers (run uuid rand reqs init).2 →
  Float64.leb (Float64.of_Z 0) (healthScore c) = true
  ∧ Float64.ltb (healthScore c) (Float64.of_Z 100) = true.
Proof.
  intros Hrand (i & Hi)%list_elem_of_lookup_1.
  pose proof (run_draws_in_order uuid rand reqs init
                (init_draws_in_order uuid rand)) as (_ & _ & Hrec).
  destruct (Hrec i c Hi) as [_ ->]. by apply mul_100_range.
Qed.

Lemma stored_scores_in_range_witness :
  let reqs := [POST_customers test_body; GET_customer "0";
               POST_customers (VStr "not an object")] in
  let c := mkCustomer "1" VUndefined VUndefined
             (Float64.mul (demo_random 1) (Float64.of_Z 100)) in
  Float64.leb (Float64.of_Z 0) (healthScore c) = true
  ∧ Float64.ltb (healthScore c) (Float64.of_Z 100) = true.
Proof.
  intros reqs c.
  apply (stored_scores_in_range demo_uuid demo_random reqs c demo_random_unit).
  vm_compute. right. left.
Defined.

(** X8. Stored records and oracle calls go in step: in a store built by
    requests, the record at position [i] has the [i]-th result of
    [uuidv4()] as id and 100 times the [i]-th result of [Math.random()] as
    health score, and each oracle has been called once per stored record
    (a POST that throws calls neither). *)
Theorem records_follow_draws uuid rand reqs i c :
  customers (run uuid rand reqs init).2 !! i = Some c →
  id c = uuid i
  ∧ healthScore c = Float64.mul (rand i) (Float64.of_Z 100)
  ∧ uuid_calls (run uuid rand reqs init).2 = length (customers (run uuid rand reqs init).2)
  ∧ random_calls (run uuid rand reqs init).2 = length (customers (run uuid rand reqs init).2).
Proof.
  intros Hi.
  pose proof (run_draws_in_order uuid rand reqs init
                (init_draws_in_order uuid rand)) as (Hu & Hr & Hrec).
  destruct (Hrec i c Hi) as [-> ->]. done.
Qed.

Lemma records_follow_draws_witness :
  let reqs := [POST_customers VNull; POST_customers test_body;
               POST_customers VUndefined; POST_customers (VObj [])] in
  let w := (run demo_uuid demo_random reqs init).2 in
  let c := mkCustomer "1" VUndefined VUndefined
             (Float64.mul (demo_random 1) (Float64.of_Z 100)) in
  id c = demo_uuid 1
  ∧ healthScore c = Float64.mul (demo_random 1) (Float64.of_Z 100)
  ∧ uuid_calls w = length (customers w)
  ∧ random_calls w = length (customers w).
Proof.
  intros reqs w c.
  exact (records_follow_draws demo_uuid demo_random reqs 1 c eq_refl).
Defined.

(** ** Further properties of the numbers *)

Local Open Scope Z_scope.

Lemma leb_shift x y e0 :
  e0 <= Float64.expo x → e0 <= Float64.expo y →
  Float64.leb x y = true ↔
  Float64.mant x * 2 ^ (Float64.expo x - e0) <= Float64.mant y * 2 ^ (Float64.expo y - e0).
Proof.
  intros Hx Hy. unfold Float64.leb, Float64.align; cbn. rewrite Z.leb_le.
  set (e := Z.min (Float64.expo x) (Float64.expo y)).
  assert (He : e0 <= e) by (subst e; lia).
  assert (Hxe : e <= Float64.expo x) by (subst e; lia).
  assert (Hye : e <= Float64.expo y) by (subst e; lia).
  replace (Float64.expo x - e0) with ((Float64.expo x - e) + (e - e0)) by lia.
  replace (Float64.expo y - e0) with ((Float64.expo y - e) + (e - e0)) by lia.
  rewrite !Z.pow_add_r by lia.
  assert (0 < 2 ^ (e - e0)) by (apply Z.pow_pos_nonneg; lia).
  clearbody e. split; nia.
Qed.

Lemma leb_trans x y z :
  Float64.leb x y = true → Float64.leb y z = true → Float64.leb x z = true.
Proof.
  set (e0 := Z.min (Float64.expo x) (Z.min (Float64.expo y) (Float64.expo z))).
  rewrite (leb_shift x y e0), (leb_shift y z e0), (leb_shift x z e0)
    by (subst e0; lia).
  lia.
Qed.

(** X9. The badge of the customer list is monotone in the health score: a
    score at least as high as one shown green is shown green, and a score
    at most as high as one shown red is shown red. *)
Theorem healthScore_badge_monotone s1 s2 :
  Float64.leb s1 s2 = true →
  (healthScore_badge s1 = "bg-green-200 text-green-800"%string →
   healthScore_badge s2 = "bg-green-200 text-green-800"%string)
  ∧ (healthScore_badge s2 = "bg-red-200 text-red-800"%string →
     healthScore_badge s1 = "bg-red-200 text-red-800"%string).
Proof.
  intros Hle. unfold healthScore_badge.
  destruct (Float64.leb (Float64.of_Z 90) s1) eqn:H90.
  { rewrite (leb_trans _ _ _ H90 Hle). done. }
  destruct (Float64.leb (Float64.of_Z 80) s1) eqn:H80.
  { rewrite (leb_trans _ _ _ H80 Hle). split; [done|].
    by destruct (Float64.leb (Float64.of_Z 90) s2). }
  done.
Qed.

Lemma healthScore_badge_monotone_witness :
  (healthScore_badge (Float64.of_Z 92) = "bg-green-200 text-green-800"%string →
   healthScore_badge (Float64.mk 191 (-1)) = "bg-green-200 text-green-800"%string)
  ∧ (healthScore_badge (Float64.mk 191 (-1)) = "bg-red-200 text-red-800"%string →
     healthScore_badge (Float64.of_Z 92) = "bg-red-200 text-red-800"%string).
Proof.
  exact (healthScore_badge_monotone (Float64.of_Z 92) (Float64.mk 191 (-1)) eq_refl).
Defined.

(** X10. A created customer's health score is exactly 0 only when
    [Math.random()] returned exactly 0: scaling by 100 never rounds a
    positive draw, however small, down to zero. *)
Theorem score_zero_iff_draw_zero uuid rand req_body w :
  Float64.wf (rand (random_calls w)) →
  object_coercible req_body = true →
  ∃ c w', post uuid rand req_body w =
            (Ok (mkResponse 201 (Json (Customer_value c))), w')
      ∧ (Float64.mant (healthScore c) = 0 ↔
         Float64.mant (rand (random_calls w)) = 0).
Proof.
  intros [Hp He] Hb. do 2 eexists. rewrite post_coercible by done.
  split; [done|]. unfold newCustomer; cbn [healthScore].
  destruct (rand (random_calls w)) as [m e]; cbn [Float64.mant Float64.expo] in *.
  unfold Float64.mul, Float64.round, Float64.of_Z; cbn [Float64.mant Float64.expo].
  rewrite Z.add_0_r.
  set (a := Z.abs (m * 100)). set (k := Z.max _ _).
  destruct (Z.leb_spec k 0) as [Hk|Hk]; cbn [Float64.mant]; [lia|].
  assert (Hk' : k = Z.log2 a + 1 - Float64.prec)
    by (unfold Float64.emin in *; lia).
  assert (Ha : 0 < a).
  { destruct (Z.eq_dec a 0) as [Ha|]; [|lia]. rewrite Ha in Hk'.
    change (Z.log2 0) with 0 in Hk'. unfold Float64.prec in *. lia. }
  assert (Hq : 2 ^ 52 <= Z.shiftr a k).
  { rewrite Z.shiftr_div_pow2 by lia. apply Z.div_le_lower_bound.
    - apply Z.pow_pos_nonneg; lia.
    - rewrite <- Z.pow_add_r by lia.
      replace (k + 52) with (Z.log2 a) by (unfold Float64.prec in *; lia).
      by apply Z.log2_spec. }
  assert (0 < 2 ^ 52) by done.
  destruct (_ || _); subst a; split; intros Hz; [nia|lia|nia|lia].
Qed.

Lemma score_zero_iff_draw_zero_witness :
  let rand := λ _ : nat, Float64.mk 1 (-1074) in
  ∃ c w', post demo_uuid rand test_body init =
            (Ok (mkResponse 201 (Json (Customer_value c))), w')
      ∧ (Float64.mant (healthScore c) = 0 ↔
         Float64.mant (rand (random_calls init)) = 0).
Proof.
  intros rand.
  apply (score_zero_iff_draw_zero demo_uuid rand test_body init);
    [split; vm_compute; [reflexivity|discriminate]|reflexivity].
Defined.

Local Close Scope Z_scope.
